(** * QuaxProject, SingleRun/fitFunc.ipynb: model functions, fit set-up, plots

    A shallow embedding of the notebook's five code cells.

    Numbers.  The notebook computes with Python floats and numpy arrays; the
    properties studied here are stated over the real numbers, so a float is
    read as the real number it stands for ([R]) and an array as a [list R].
    An operation whose real value does not exist (a division by zero, the
    square root of a negative number: [ZeroDivisionError] on Python scalars,
    [inf]/[nan] in numpy) yields [None].  Rounding is outside this reading.

    Libraries.  lmfit ([Model], [make_params], [fit]), matplotlib and scipy
    are not part of the repository.  What the notebook passes to them is
    modelled in full; of their behaviour only the documented interface is
    used: the defaults of a parameter hint, and, for the solver, the section
    variable [lmfit_fit] together with the hypotheses stated where they are
    needed. *)

From Stdlib Require Import Reals Lra Lia ZArith List.
From stdpp Require Import gmap strings.
Import ListNotations.

Open Scope R_scope.

(* ------------------------------------------------------------------ *)
(** ** Partial real arithmetic *)

Module Py.

(** [p / q] *)
Definition div (p q : R) : option R :=
  if Req_dec_T q 0 then None else Some (p / q).

(** [np.sqrt(r)] *)
Definition np_sqrt (r : R) : option R :=
  if Rle_dec 0 r then Some (sqrt r) else None.

(** Python's [complex]. *)
Record complex : Type := Complex { re : R; im : R }.

(** The literal [1j]. *)
Definition j1 : complex := Complex 0 1.

(** Coercion of a float operand in mixed arithmetic. *)
Definition of_float (r : R) : complex := Complex r 0.

Definition cadd (z w : complex) : complex :=
  Complex (re z + re w) (im z + im w).

Definition cmul (z w : complex) : complex :=
  Complex (re z * re w - im z * im w) (re z * im w + im z * re w).

(** [abs(z)] on a complex number: its modulus. *)
Definition cabs (z : complex) : R := sqrt (re z * re z + im z * im z).

End Py.

(* ------------------------------------------------------------------ *)
(** ** Cell 2: the model functions *)

(** [e**2*abs(x-a+1j*b)**2/abs(x-c+1j*d)**2+f*(x-c)] *)
Definition bkg (x a b c d e f : R) : option R :=
  let num := Py.cabs (Py.cadd (Py.of_float (x - a)) (Py.cmul Py.j1 (Py.of_float b))) in
  let den := Py.cabs (Py.cadd (Py.of_float (x - c)) (Py.cmul Py.j1 (Py.of_float d))) in
  q ← Py.div (e ^ 2 * num ^ 2) (den ^ 2);
  Some (q + f * (x - c)).

(** [mu * np.exp(-.5*((x-x0)/s)**2)] *)
Definition gaussian (x x0 s mu : R) : option R :=
  t ← Py.div (x - x0) s;
  Some (mu * exp (- 0.5 * t ^ 2)).

(** [mu * x**2/s**3 * np.exp(-.5*((x-x0)/s)**2)] *)
Definition maxwell (x x0 s mu : R) : option R :=
  q ← Py.div (mu * x ^ 2) (s ^ 3);
  t ← Py.div (x - x0) s;
  Some (q * exp (- 0.5 * t ^ 2)).

(** [bkg(x,a,b,c,d,e,f) + gaussian(x,x0,s,mu)] *)
Definition signal_gauss (x a b c d e f x0 s mu : R) : option R :=
  bg ← bkg x a b c d e f;
  sg ← gaussian x x0 s mu;
  Some (bg + sg).

(** [bkg(x,a,b,c,d,e,f) + maxwell(x,x0,s,mu)] *)
Definition signal_maxwell (x a b c d e f x0 s mu : R) : option R :=
  bg ← bkg x a b c d e f;
  sg ← maxwell x x0 s mu;
  Some (bg + sg).

(** The closed real-arithmetic form the specification gives for [bkg]:
    e²·((x−a)²+b²)/((x−c)²+d²) + f·(x−c). *)
Definition bkg_closed (x a b c d e f : R) : option R :=
  q ← Py.div (e ^ 2 * ((x - a) ^ 2 + b ^ 2)) ((x - c) ^ 2 + d ^ 2);
  Some (q + f * (x - c)).

(* ------------------------------------------------------------------ *)
(** ** numpy on one-dimensional arrays *)

Module Np.

(** [np.max(arr)]; a zero-size array raises. *)
Definition max (arr : list R) : option R :=
  match arr with
  | [] => None
  | r :: rest => Some (fold_left Rmax rest r)
  end.

(** [np.min(arr)], also the built-in [min] on a sequence of floats. *)
Definition min (arr : list R) : option R :=
  match arr with
  | [] => None
  | r :: rest => Some (fold_left Rmin rest r)
  end.

(** [k / arr], elementwise. *)
Definition rdiv (k : R) (arr : list R) : option (list R) :=
  mapM (Py.div k) arr.

(** [a * b], elementwise, a one-element array being stretched. *)
Definition mul (a b : list R) : option (list R) :=
  if decide (length a = length b) then Some (zip_with Rmult a b)
  else match a, b with
       | [k], _ => Some (map (Rmult k) b)
       | _, [k] => Some (map (fun r => r * k) a)
       | _, _ => None
       end.

(** [-arr] *)
Definition neg (arr : list R) : list R := map Ropp arr.

(** [np.linspace(start, stop, num)] for [num] at least 2. *)
Definition linspace (start stop : R) (num : nat) : list R :=
  map (fun i => start + INR i * ((stop - start) / INR (num - 1))) (seq 0 num).

(** Rounding to the nearest integer, ties to the even one. *)
Definition rint (r : R) : Z :=
  let lo := Zfloor r in
  if Rlt_dec (r - IZR lo) 0.5 then lo
  else if Rlt_dec 0.5 (r - IZR lo) then (lo + 1)%Z
  else if Z.even lo then lo else (lo + 1)%Z.

(** [np.round(r, decimals)] *)
Definition round (r : R) (decimals : nat) : R :=
  IZR (rint (r * 10 ^ decimals)) / 10 ^ decimals.

End Np.

(** [int(r)] on a float: truncation toward zero. *)
Definition py_int (r : R) : Z :=
  if Rle_dec 0 r then Zfloor r else Zceil r.

(* ------------------------------------------------------------------ *)
(** ** lmfit: parameters, models, fit results *)

Module Lmfit.

(** lmfit's [Parameter], as [make_params] is asked to create it; an absent
    bound is infinite. *)
Record Param : Type :=
  { value : R; vary : bool; min : option R; max : option R }.

(** One keyword argument of [make_params]: a bare number, or a dict of
    hints [{'value': .., 'min': .., 'max': .., 'vary': ..}] in which every
    key is optional. *)
Inductive hint : Type :=
| Num (r : R)
| Dict (value : option R) (min max : option R) (vary : option bool).

(** Defaults of lmfit: free to vary, unbounded.  A hint without a value
    leaves the parameter at minus infinity, which is no real number. *)
Definition make_param (h : hint) : option Param :=
  match h with
  | Num r => Some {| value := r; vary := true; min := None; max := None |}
  | Dict v lo hi vy =>
      r ← v; Some {| value := r; vary := default true vy; min := lo; max := hi |}
  end.

(** [model.make_params] applied to its keyword arguments. *)
Fixpoint make_params (kwargs : list (string * hint)) : option (gmap string Param) :=
  match kwargs with
  | [] => Some ∅
  | (name, h) :: rest =>
      ps ← make_params rest; p ← make_param h; Some (<[name := p]> ps)
  end.

(** A model function as lmfit calls it: the independent variable, and the
    parameters by keyword. *)
Definition model_func : Type := R -> gmap string R -> option R.

(** [Model(func)] *)
Record Model : Type := { func : model_func }.

(** [ModelResult]: the attributes the notebook reads. *)
Record ModelResult : Type :=
  { params : gmap string Param;
    best_fit : list R;
    residual : list R }.

(** The type of [Model.fit(data, x=, params=, weights=)]; [None] when the
    solver raises. *)
Definition fit_method : Type :=
  Model -> list R -> list R -> gmap string Param -> list R -> option ModelResult.

(** What lmfit documents for [vary=False]: the parameter is held at its
    value for the whole fit. *)
Definition holds_fixed (fit : fit_method) : Prop :=
  forall m data x ps weights res name p,
    fit m data x ps weights = Some res ->
    ps !! name = Some p -> vary p = false ->
    exists p', params res !! name = Some p' /\ value p' = value p.

(** A solver that takes no step towards the data: every free parameter
    with a lower bound is put on that bound, the others are left alone. *)
Definition to_lower_bound (p : Param) : Param :=
  if vary p
  then {| value := default (value p) (min p); vary := true; min := min p; max := max p |}
  else p.

Definition bound_fit : fit_method :=
  fun m data x ps weights =>
    let ps' := to_lower_bound <$> ps in
    fitted ← mapM (fun xi => func m xi (value <$> ps')) x;
    res ← Np.mul (zip_with Rminus fitted data) weights;
    Some {| params := ps'; best_fit := fitted; residual := res |}.

End Lmfit.

(** The signature of [bkg] and of the two combined models. *)
Definition func6 : Type := R -> R -> R -> R -> R -> R -> R -> option R.
Definition func9 : Type := R -> R -> R -> R -> R -> R -> R -> R -> R -> R -> option R.

(** Calling a six-parameter function with its parameters by keyword. *)
Definition by_keyword6 (fn : func6) : Lmfit.model_func :=
  fun x kw =>
    a ← kw !! "a"; b ← kw !! "b"; c ← kw !! "c";
    d ← kw !! "d"; e ← kw !! "e"; f ← kw !! "f";
    fn x a b c d e f.

Definition by_keyword9 (fn : func9) : Lmfit.model_func :=
  fun x kw =>
    a ← kw !! "a"; b ← kw !! "b"; c ← kw !! "c";
    d ← kw !! "d"; e ← kw !! "e"; f ← kw !! "f";
    x0 ← kw !! "x0"; s ← kw !! "s"; mu ← kw !! "mu";
    fn x a b c d e f x0 s mu.

(* ------------------------------------------------------------------ *)
(** ** Cells 3 and 4: the two fits *)

Section Fits.

(** lmfit's solver. *)
Variable lmfit_fit : Lmfit.fit_method.

Definition fit_bkg (x y w : list R) (center ref : R) : option Lmfit.ModelResult :=
  let bkg_model := {| Lmfit.func := by_keyword6 bkg |} in
  root ← Py.np_sqrt ref;
  ps ← Lmfit.make_params
         [ ("a", Lmfit.Dict (Some center) (Some (center * 0.999)) (Some (center * 1.01)) None);
           ("b", Lmfit.Num 2e4);
           ("c", Lmfit.Dict (Some center) (Some (center * 0.999)) (Some (center * 1.01)) None);
           ("d", Lmfit.Num 2.2e4);
           ("e", Lmfit.Num (1e-2 * root));
           ("f", Lmfit.Num (1e-12 * ref)) ];
  weights ← Np.rdiv 1 w;
  lmfit_fit bkg_model y x ps weights.

(** The defaults of the notebook are [mu_init=1], [mu_vary=True],
    [par_vary=False]. *)
Definition fit_sig (x y w : list R) (x_0 : R) (init_params : gmap string R)
    (signal : func9) (mu_init : R) (mu_vary par_vary : bool)
  : option Lmfit.ModelResult :=
  let sig_model := {| Lmfit.func := by_keyword9 signal |} in
  ia ← init_params !! "a"; ib ← init_params !! "b"; ic ← init_params !! "c";
  id ← init_params !! "d"; ie ← init_params !! "e"; i_f ← init_params !! "f";
  ps ← Lmfit.make_params
         [ ("a", Lmfit.Dict (Some ia) None None (Some par_vary));
           ("b", Lmfit.Dict (Some ib) None None (Some par_vary));
           ("c", Lmfit.Dict (Some ic) None None (Some par_vary));
           ("d", Lmfit.Dict (Some id) None None (Some par_vary));
           ("e", Lmfit.Dict (Some ie) None None (Some par_vary));
           ("f", Lmfit.Dict (Some i_f) None None (Some par_vary));
           ("mu", Lmfit.Dict (Some mu_init) (Some 0) None (Some mu_vary));
           ("x0", Lmfit.Dict (Some x_0) None None (Some false));
           ("s", Lmfit.Dict (Some (16 * 651)) None None (Some false)) ];
  weights ← Np.rdiv 1 w;
  lmfit_fit sig_model y x ps weights.

End Fits.

(* ------------------------------------------------------------------ *)
(** ** scipy.stats.norm *)

Module Norm.

(** [norm.fit(data, loc=0, scale=1)]: the maximum-likelihood mean and
    standard deviation; the two keywords are starting guesses only. *)
Definition fit (data : list R) : option (R * R) :=
  let n := INR (length data) in
  mean ← Py.div (fold_right Rplus 0 data) n;
  var ← Py.div (fold_right Rplus 0 (map (fun r => (r - mean) ^ 2) data)) n;
  Some (mean, sqrt var).

(** [norm.pdf(x, loc, scale)]; not a number unless [scale] is positive. *)
Definition pdf (x loc scale : R) : option R :=
  if Rlt_dec 0 scale
  then Some (exp (- ((x - loc) / scale) ^ 2 / 2) / (sqrt (2 * PI) * scale))
  else None.

End Norm.

(* ------------------------------------------------------------------ *)
(** ** matplotlib: what a call leaves on the canvas *)

Module Plt.

Inductive figure : Type := Fig | Fig3.
Inductive axes : Type := Ax | Ax1 | Ax2 | Ax3.

(** A cell range of a [GridSpec]: [gs[r, c]] or [gs[r, :]]. *)
Inductive cell : Type := At (row col : nat) | Row (row : nat).

(** Text shown on the canvas: a format string and its arguments. *)
Record text : Type := { template : string; args : list R }.

(** One drawing call, with the data and the keywords it was given.  A
    plotted value that is no real number (nan, inf) is [None]; a keyword
    the call leaves out is the empty string; the text is placed in the
    coordinates of the current axes of the figure [gca_of]. *)
Inductive cmd : Type :=
| new_figure (fg : figure) (width height : Z)
| add_subplot (fg : figure) (a : axes) (rows cols : nat) (at_ : cell)
| subplots (fg : figure) (a : axes) (rows cols : nat) (width height : Z)
| plot (a : axes) (xs : list R) (ys : list (option R)) (fmt color label : string)
| scatter (a : axes) (xs ys : list R) (label : string)
| hist (a : axes) (data : list R) (bins : Z) (density : bool) (lo hi : Z)
| plot_residuals (a : axes) (fit_result : positive)
| axvline (a : axes) (x : R) (color linestyle : string) (linewidth : Z)
| text_at (a : axes) (x y : R) (s : text) (gca_of : figure) (ha va : string)
| set_xlim (a : axes) (lo hi : R)
| set_xlabel (a : axes) (s : string) (size : option Z)
| set_ylabel (a : axes) (s : string)
| set_title (a : axes) (s : string)
| legend (a : axes)
| show.

End Plt.

(* ------------------------------------------------------------------ *)
(** ** The interpreter state: objects and canvas *)

Inductive exn : Type := ValueError | ReferenceError.

(** The fit results alive in the interpreter, by reference, and the
    drawing calls made so far. *)
Record world : Type :=
  { heap : gmap positive Lmfit.ModelResult;
    canvas : list Plt.cmd }.

Inductive outcome (A : Type) : Type :=
| Return (a : A) (σ : world)
| Raise (e : exn).
Arguments Return {A} a σ.
Arguments Raise {A} e.

(** A computation that reads and writes the world and may raise. *)
Definition Run (A : Type) : Type := world -> outcome A.

#[global] Instance Run_ret : MRet Run := fun A a σ => Return a σ.
#[global] Instance Run_bind : MBind Run := fun A B k m σ =>
  match m σ with
  | Return a σ' => k a σ'
  | Raise e => Raise e
  end.

(** Append one drawing call to the canvas. *)
Definition draw (c : Plt.cmd) : Run unit :=
  fun σ => Return tt {| heap := heap σ; canvas := canvas σ ++ [c] |}.

(** Read an attribute of the object behind a reference. *)
Definition attr {A : Type} (get : Lmfit.ModelResult -> A) (ref : positive) : Run A :=
  fun σ => match heap σ !! ref with
           | Some obj => Return (get obj) σ
           | None => Raise ReferenceError
           end.

(** The value of a library call that raises [e] when it has none. *)
Definition or_raise {A : Type} (e : exn) (o : option A) : Run A :=
  fun σ => match o with Some a => Return a σ | None => Raise e end.

Definition raise {A : Type} (e : exn) : Run A := fun _ => Raise e.

(** [ax.plot(xs, ys, ...)]: the two sequences must have one length. *)
Definition ax_plot (a : Plt.axes) (xs : list R) (ys : list (option R))
    (fmt color label : string) : Run unit :=
  if decide (length xs = length ys)
  then draw (Plt.plot a xs ys fmt color label)
  else raise ValueError.

(** [ax.scatter(xs, ys, label=)]: likewise. *)
Definition ax_scatter (a : Plt.axes) (xs ys : list R) (label : string) : Run unit :=
  if decide (length xs = length ys)
  then draw (Plt.scatter a xs ys label)
  else raise ValueError.

(** [ax.hist(data, bins=, density=, range=(lo, hi))]: numpy refuses a
    range whose lower end is above its upper end. *)
Definition ax_hist (a : Plt.axes) (data : list R) (bins : Z) (density : bool)
    (lo hi : Z) : Run unit :=
  if decide (lo <= hi)%Z
  then draw (Plt.hist a data bins density lo hi)
  else raise ValueError.

(* ------------------------------------------------------------------ *)
(** ** Cell 5: the plots *)

(** [int(np.max(fit_result.residual))+1] *)
Definition rangeMax (residual : list R) : option Z :=
  top ← Np.max residual; Some (py_int top + 1)%Z.

Definition plot_fit (x y w : list R) (fit_result : positive) : Run positive :=
  (* prepare canvas *)
  draw (Plt.new_figure Plt.Fig 15 10);;
  draw (Plt.add_subplot Plt.Fig Plt.Ax 2 2 (Plt.Row 0));;
  draw (Plt.add_subplot Plt.Fig Plt.Ax1 2 2 (Plt.At 1 0));;
  draw (Plt.add_subplot Plt.Fig Plt.Ax2 2 2 (Plt.At 1 1));;
  (* plot data and best fit *)
  ax_plot Plt.Ax x (Some <$> y) "o" "" "data";;
  best ← attr Lmfit.best_fit fit_result;
  ax_plot Plt.Ax x (Some <$> best) "" "red" "fit";;
  fmin ← or_raise ValueError (Np.min x);
  fmax ← or_raise ValueError (Np.max x);
  draw (Plt.set_xlim Plt.Ax fmin fmax);;
  draw (Plt.set_ylabel Plt.Ax "FFT [yW]");;
  draw (Plt.set_xlabel Plt.Ax "Frequency [Hz]" None);;
  draw (Plt.legend Plt.Ax);;
  (* residuals w.r.t. freq *)
  draw (Plt.plot_residuals Plt.Ax1 fit_result);;
  (* histogram of residuals, with the fit *)
  res ← attr Lmfit.residual fit_result;
  rmax ← or_raise ValueError (rangeMax res);
  res ← attr Lmfit.residual fit_result;
  ax_hist Plt.Ax2 res 15 true (- rmax) rmax;;
  res ← attr Lmfit.residual fit_result;
  fit_res ← or_raise ValueError (Norm.fit res);
  let grid := Np.linspace (IZR (- rmax)) (IZR rmax) 100 in
  ax_plot Plt.Ax2 grid ((fun t => Norm.pdf t fit_res.1 fit_res.2) <$> grid) "" "red" "";;
  draw (Plt.axvline Plt.Ax2 fit_res.1 "black" "dashed" 1);;
  let summary_text :=
    {| Plt.template := "mean: {}\n std: {}";
       Plt.args := [Np.round fit_res.1 3; Np.round fit_res.2 3] |} in
  draw (Plt.text_at Plt.Ax2 0.9 0.9 summary_text Plt.Fig "right" "top");;
  draw (Plt.set_xlabel Plt.Ax2 "$\frac{y-y_{fit}}{\sigma}$" (Some 20%Z));;
  draw (Plt.set_ylabel Plt.Ax2 "counts");;
  (* residuals vs. freq and error band *)
  draw (Plt.subplots Plt.Fig3 Plt.Ax3 1 1 18 5);;
  res ← attr Lmfit.residual fit_result;
  scaled ← or_raise ValueError (Np.mul res w);
  ax_scatter Plt.Ax3 x scaled "residuals";;
  ax_plot Plt.Ax3 x (Some <$> w) "" "" "+$\sigma$";;
  ax_plot Plt.Ax3 x (Some <$> Np.neg w) "" "" "-$\sigma$";;
  draw (Plt.set_xlim Plt.Ax3 fmin fmax);;
  draw (Plt.set_title Plt.Ax3 "Residuals vs freq");;
  draw (Plt.legend Plt.Ax3);;
  draw Plt.show;;
  mret fit_result.

(** The inputs on which every library call of [plot_fit] has a value: one
    common, non-zero length, and a histogram range that is not inverted. *)
Definition well_formed (x y w : list R) (res : Lmfit.ModelResult) : Prop :=
  x <> [] /\
  length y = length x /\ length w = length x /\
  length (Lmfit.best_fit res) = length x /\
  length (Lmfit.residual res) = length x /\
  forall top, Np.max (Lmfit.residual res) = Some top -> -2 < top.

(** An interpreter holding one fit result, at reference 1, and a blank
    canvas. *)
Definition one_result (res : Lmfit.ModelResult) : world :=
  {| heap := {[ 1%positive := res ]}; canvas := [] |}.

(** A two-point fit result with residuals 0 and -0.25. *)
Definition sample_result : Lmfit.ModelResult :=
  {| Lmfit.params := ∅; Lmfit.best_fit := [5; 7]; Lmfit.residual := [0; -0.25] |}.


(** A one-point fit result whose residual is -3. *)
Definition low_result : Lmfit.ModelResult :=
  {| Lmfit.params := ∅; Lmfit.best_fit := [1]; Lmfit.residual := [-3] |}.

(** The best values of a first fit, as [fit_sig] is given them. *)
Definition sample_init : gmap string R :=
  {[ "a" := 2; "b" := 1; "c" := 1; "d" := 1; "e" := 2; "f" := 1 ]}.

(** lmfit's [ModelResult.best_values]: the best value of each parameter,
    by name. *)
Definition best_values (res : Lmfit.ModelResult) : gmap string R :=
  Lmfit.value <$> Lmfit.params res.

(** The result of a fit has every parameter the fit was given. *)
Definition keeps_names (fit : Lmfit.fit_method) : Prop :=
  forall m data x ps weights res name,
    fit m data x ps weights = Some res ->
    is_Some (ps !! name) -> is_Some (Lmfit.params res !! name).

(** Best values without the entry for c. *)
Definition init_without_c : gmap string R :=
  {[ "a" := 2; "b" := 1; "d" := 1; "e" := 2; "f" := 1 ]}.

(* ------------------------------------------------------------------ *)
(** ** Properties of the model functions *)

Lemma div_defined (p q : R) : q <> 0 -> Py.div p q = Some (p / q).
Proof. intros Hq. unfold Py.div. destruct (Req_dec_T q 0); [contradiction | reflexivity]. Qed.

Lemma div_by_zero (p : R) : Py.div p 0 = None.
Proof. unfold Py.div. destruct (Req_dec_T 0 0) as [_ | H]; [reflexivity | now elim H]. Qed.

Lemma cabs_shifted_sq (u v : R) :
  Py.cabs (Py.cadd (Py.of_float u) (Py.cmul Py.j1 (Py.of_float v))) ^ 2 = u ^ 2 + v ^ 2.
Proof.
  unfold Py.cabs, Py.cadd, Py.cmul, Py.of_float, Py.j1; cbn [Py.re Py.im].
  rewrite pow2_sqrt; [ring | nra].
Qed.

Lemma bkg_unfold (x a b c d e f : R) :
  bkg x a b c d e f = bkg_closed x a b c d e f.
Proof. unfold bkg, bkg_closed. now rewrite !cabs_shifted_sq. Qed.

Lemma bkg_undefined (x a b e f : R) : bkg x a b x 0 e f = None.
Proof.
  rewrite bkg_unfold. unfold bkg_closed.
  replace ((x - x) ^ 2 + 0 ^ 2) with 0 by ring.
  now rewrite div_by_zero.
Qed.

Lemma bkg_closed_defined (x a b c d e f : R) :
  (x - c) ^ 2 + d ^ 2 <> 0 ->
  bkg_closed x a b c d e f =
  Some (e ^ 2 * ((x - a) ^ 2 + b ^ 2) / ((x - c) ^ 2 + d ^ 2) + f * (x - c)).
Proof. intros H. unfold bkg_closed. now rewrite div_defined. Qed.

Lemma gaussian_defined (x x0 s mu : R) :
  s <> 0 -> gaussian x x0 s mu = Some (mu * exp (- 0.5 * ((x - x0) / s) ^ 2)).
Proof. intros H. unfold gaussian. now rewrite div_defined. Qed.

Lemma maxwell_defined (x x0 s mu : R) :
  s <> 0 ->
  maxwell x x0 s mu = Some (mu * x ^ 2 / s ^ 3 * exp (- 0.5 * ((x - x0) / s) ^ 2)).
Proof.
  intros H. unfold maxwell.
  rewrite (div_defined _ _ (pow_nonzero s 3 H)).
  now rewrite div_defined.
Qed.

Lemma bkg_defined (x a b c d e f : R) :
  (x - c) ^ 2 + d ^ 2 <> 0 ->
  bkg x a b c d e f =
  Some (e ^ 2 * ((x - a) ^ 2 + b ^ 2) / ((x - c) ^ 2 + d ^ 2) + f * (x - c)).
Proof. intros H. rewrite bkg_unfold. now apply bkg_closed_defined. Qed.

(** C4: with a non-zero denominator, the complex-magnitude [bkg] of the
    notebook and the closed real form of the specification are the same
    function, with value e²·((x−a)²+b²)/((x−c)²+d²) + f·(x−c). *)
Theorem bkg_refines_closed_form (x a b c d e f : R) :
  (x - c) ^ 2 + d ^ 2 <> 0 ->
  bkg x a b c d e f = bkg_closed x a b c d e f /\
  bkg x a b c d e f =
  Some (e ^ 2 * ((x - a) ^ 2 + b ^ 2) / ((x - c) ^ 2 + d ^ 2) + f * (x - c)).
Proof.
  intros H. split; [apply bkg_unfold | now apply bkg_defined].
Qed.

Lemma bkg_refines_closed_form_witness :
  (3 - 1) ^ 2 + 1 ^ 2 <> 0 /\
  bkg 3 2 1 1 1 2 1 = bkg_closed 3 2 1 1 1 2 1 /\
  bkg 3 2 1 1 1 2 1 =
  Some (2 ^ 2 * ((3 - 2) ^ 2 + 1 ^ 2) / ((3 - 1) ^ 2 + 1 ^ 2) + 1 * (3 - 1)).
Proof. split; [lra | apply (bkg_refines_closed_form 3 2 1 1 1 2 1); lra]. Defined.

(** C2, as stated, fails: with the last two arguments 0 and 0 the scale e
    is 0, and [bkg] returns 0 where the ratio is 1. *)
Lemma bkg_e0_f0_not_ratio :
  bkg 1 0 0 0 0 0 0 = Some 0 /\
  bkg 1 0 0 0 0 0 0 <> Py.div ((1 - 0) ^ 2 + 0 ^ 2) ((1 - 0) ^ 2 + 0 ^ 2).
Proof.
  assert (Hv : bkg 1 0 0 0 0 0 0 = Some 0).
  { rewrite bkg_unfold, bkg_closed_defined by lra. f_equal. field. }
  split; [exact Hv |].
  rewrite Hv, div_defined by lra.
  intros [=He]. field_simplify in He. lra.
Qed.

(** C2, amended: with e = 1 and f = 0, [bkg] is the ratio
    ((x−a)²+b²)/((x−c)²+d²), undefined exactly where the ratio is. *)
Theorem bkg_e1_f0_ratio (x a b c d : R) :
  bkg x a b c d 1 0 = Py.div ((x - a) ^ 2 + b ^ 2) ((x - c) ^ 2 + d ^ 2).
Proof.
  rewrite bkg_unfold. unfold bkg_closed, Py.div.
  destruct (Req_dec_T _ 0); cbn; [reflexivity | f_equal; unfold Rdiv; ring].
Qed.

(** C9: [bkg] does not see the sign of b, of d or of e. *)
Theorem bkg_sign_invariant (x a b c d e f : R) :
  bkg x a (- b) c d e f = bkg x a b c d e f /\
  bkg x a b c (- d) e f = bkg x a b c d e f /\
  bkg x a b c d (- e) f = bkg x a b c d e f.
Proof.
  rewrite !bkg_unfold. unfold bkg_closed.
  replace ((- b) ^ 2) with (b ^ 2) by ring.
  replace ((- d) ^ 2) with (d ^ 2) by ring.
  replace ((- e) ^ 2) with (e ^ 2) by ring.
  auto.
Qed.

(** C7: where background and signal are defined, the combined models are
    defined and taking the background away leaves the signal alone. *)
Theorem signal_minus_bkg (x a b c d e f x0 s mu : R) :
  (x - c) ^ 2 + d ^ 2 <> 0 -> s <> 0 ->
  exists sg sm bg g m : R,
    signal_gauss x a b c d e f x0 s mu = Some sg /\
    signal_maxwell x a b c d e f x0 s mu = Some sm /\
    bkg x a b c d e f = Some bg /\
    gaussian x x0 s mu = Some g /\
    maxwell x x0 s mu = Some m /\
    sg - bg = g /\ sm - bg = m.
Proof.
  intros Hd Hs.
  pose proof (bkg_defined x a b c d e f Hd) as Hb.
  pose proof (gaussian_defined x x0 s mu Hs) as Hg.
  pose proof (maxwell_defined x x0 s mu Hs) as Hm.
  unfold signal_gauss, signal_maxwell. rewrite Hb, Hg, Hm. cbn.
  do 5 eexists. repeat split; ring.
Qed.

Lemma signal_minus_bkg_witness :
  exists sg sm bg g m : R,
    signal_gauss 3 2 1 1 1 2 1 3 2 5 = Some sg /\
    signal_maxwell 3 2 1 1 1 2 1 3 2 5 = Some sm /\
    bkg 3 2 1 1 1 2 1 = Some bg /\
    gaussian 3 3 2 5 = Some g /\
    maxwell 3 3 2 5 = Some m /\
    sg - bg = g /\ sm - bg = m.
Proof. apply (signal_minus_bkg 3 2 1 1 1 2 1 3 2 5); lra. Defined.

(** C10: for s ≠ 0 the Maxwell shape is the Gaussian shape times x²/s³,
    and it vanishes at x = 0. *)
Theorem maxwell_is_scaled_gaussian (x x0 s mu : R) :
  s <> 0 ->
  exists g : R,
    gaussian x x0 s mu = Some g /\
    maxwell x x0 s mu = Some (x ^ 2 / s ^ 3 * g) /\
    maxwell 0 x0 s mu = Some 0.
Proof.
  intros Hs. eexists. split; [now apply gaussian_defined |].
  rewrite !maxwell_defined by assumption.
  split; f_equal; field; assumption.
Qed.

Lemma maxwell_is_scaled_gaussian_witness :
  exists g : R,
    gaussian 3 1 2 5 = Some g /\
    maxwell 3 1 2 5 = Some (3 ^ 2 / 2 ^ 3 * g) /\
    maxwell 0 1 2 5 = Some 0.
Proof. apply (maxwell_is_scaled_gaussian 3 1 2 5); lra. Defined.

(* ------------------------------------------------------------------ *)
(** ** The set-up of the two fits *)

Lemma np_sqrt_defined (r : R) : 0 <= r -> Py.np_sqrt r = Some (sqrt r).
Proof. intros H. unfold Py.np_sqrt. destruct (Rle_dec 0 r); [reflexivity | contradiction]. Qed.

Lemma rdiv_defined (k : R) (arr : list R) :
  Forall (fun r => r <> 0) arr -> Np.rdiv k arr = Some (map (fun r => k / r) arr).
Proof.
  unfold Np.rdiv. induction 1 as [| r arr Hr _ IH]; [reflexivity |].
  cbn. rewrite (div_defined _ _ Hr). cbn.
  fold (mapM (Py.div k) arr). rewrite IH. reflexivity.
Qed.



(** What [fit_sig] builds before calling the solver, for any set-up of
    the nine parameters. *)
Lemma fit_sig_unfold (lmfit_fit : Lmfit.fit_method) (x y w : list R) (x_0 : R)
    (init_params : gmap string R) (signal : func9) (mu_init : R)
    (mu_vary par_vary : bool) (ia ib ic id ie i_f : R) :
  init_params !! "a" = Some ia -> init_params !! "b" = Some ib ->
  init_params !! "c" = Some ic -> init_params !! "d" = Some id ->
  init_params !! "e" = Some ie -> init_params !! "f" = Some i_f ->
  Forall (fun r => r <> 0) w ->
  let held v := {| Lmfit.value := v; Lmfit.vary := par_vary;
                   Lmfit.min := None; Lmfit.max := None |} in
  fit_sig lmfit_fit x y w x_0 init_params signal mu_init mu_vary par_vary =
    lmfit_fit {| Lmfit.func := by_keyword9 signal |} y x
      {[ "a" := held ia; "b" := held ib; "c" := held ic;
         "d" := held id; "e" := held ie; "f" := held i_f;
         "mu" := {| Lmfit.value := mu_init; Lmfit.vary := mu_vary;
                    Lmfit.min := Some 0; Lmfit.max := None |};
         "x0" := {| Lmfit.value := x_0; Lmfit.vary := false;
                    Lmfit.min := None; Lmfit.max := None |};
         "s" := {| Lmfit.value := 16 * 651; Lmfit.vary := false;
                   Lmfit.min := None; Lmfit.max := None |} ]}
      (map (fun r => 1 / r) w).
Proof.
  intros Ha Hb Hc Hd He Hf Hw held. unfold fit_sig.
  rewrite Ha, Hb, Hc, Hd, He, Hf, (rdiv_defined _ _ Hw). cbn.
  now rewrite insert_empty.
Qed.




Lemma bound_fit_holds_fixed : Lmfit.holds_fixed Lmfit.bound_fit.
Proof.
  intros m data x ps weights res name p Hrun Hp Hvary.
  unfold Lmfit.bound_fit in Hrun.
  destruct (mapM _ x) as [fitted |]; [| discriminate]. cbn in Hrun.
  destruct (Np.mul _ weights) as [scaled |]; [| discriminate].
  injection Hrun as <-. cbn.
  exists p. split; [| reflexivity].
  rewrite lookup_fmap, Hp. cbn. unfold Lmfit.to_lower_bound.
  now rewrite Hvary.
Qed.

(** C1: with [par_vary=False], and a solver that holds fixed parameters,
    each of a..f is set up from [init_params] with [vary=False] and has the
    supplied value in the returned result. *)
Theorem fit_sig_keeps_background (lmfit_fit : Lmfit.fit_method) (x y w : list R)
    (x_0 : R) (init_params : gmap string R) (signal : func9) (mu_init : R)
    (mu_vary : bool) (res : Lmfit.ModelResult) :
  Lmfit.holds_fixed lmfit_fit ->
  fit_sig lmfit_fit x y w x_0 init_params signal mu_init mu_vary false = Some res ->
  exists (ps : gmap string Lmfit.Param) (weights : list R),
    lmfit_fit {| Lmfit.func := by_keyword9 signal |} y x ps weights = Some res /\
    forall name, name ∈ ["a"; "b"; "c"; "d"; "e"; "f"] ->
      exists (v : R) (p : Lmfit.Param),
        init_params !! name = Some v /\
        ps !! name = Some {| Lmfit.value := v; Lmfit.vary := false;
                             Lmfit.min := None; Lmfit.max := None |} /\
        Lmfit.params res !! name = Some p /\
        Lmfit.value p = v.
Proof.
  intros Hfix Hrun. unfold fit_sig in Hrun.
  destruct (init_params !! "a") as [ia |] eqn:Ha; [| discriminate].
  destruct (init_params !! "b") as [ib |] eqn:Hb; [| discriminate].
  destruct (init_params !! "c") as [ic |] eqn:Hc; [| discriminate].
  destruct (init_params !! "d") as [id |] eqn:Hd; [| discriminate].
  destruct (init_params !! "e") as [ie |] eqn:He; [| discriminate].
  destruct (init_params !! "f") as [i_f |] eqn:Hf; [| discriminate].
  cbn in Hrun.
  destruct (Np.rdiv 1 w) as [weights |]; [| discriminate]. cbn in Hrun.
  match type of Hrun with
  | lmfit_fit _ _ _ ?m _ = _ => set (ps := m) in Hrun
  end.
  exists ps, weights. split; [exact Hrun |].
  pose (held := fun v => {| Lmfit.value := v; Lmfit.vary := false;
                            Lmfit.min := None; Lmfit.max := None |}).
  assert (Hkeep : forall key v, init_params !! key = Some v ->
            ps !! key = Some (held v) ->
            exists (v' : R) (p : Lmfit.Param),
              init_params !! key = Some v' /\ ps !! key = Some (held v') /\
              Lmfit.params res !! key = Some p /\ Lmfit.value p = v').
  { intros key v Hinit Hps.
    destruct (Hfix _ _ _ _ _ _ key (held v) Hrun Hps eq_refl) as (p & Hp & Hv).
    exists v, p. auto. }
  intros name Hname.
  apply elem_of_cons in Hname as [-> | Hname]; [exact (Hkeep "a" ia Ha eq_refl) |].
  apply elem_of_cons in Hname as [-> | Hname]; [exact (Hkeep "b" ib Hb eq_refl) |].
  apply elem_of_cons in Hname as [-> | Hname]; [exact (Hkeep "c" ic Hc eq_refl) |].
  apply elem_of_cons in Hname as [-> | Hname]; [exact (Hkeep "d" id Hd eq_refl) |].
  apply elem_of_cons in Hname as [-> | Hname]; [exact (Hkeep "e" ie He eq_refl) |].
  apply elem_of_cons in Hname as [-> | Hname]; [exact (Hkeep "f" i_f Hf eq_refl) |].
  now apply elem_of_nil in Hname.
Qed.

Lemma signal_gauss_defined (x a b c d e f x0 s mu : R) :
  (x - c) ^ 2 + d ^ 2 <> 0 -> s <> 0 ->
  signal_gauss x a b c d e f x0 s mu =
  Some (e ^ 2 * ((x - a) ^ 2 + b ^ 2) / ((x - c) ^ 2 + d ^ 2) + f * (x - c)
        + mu * exp (- 0.5 * ((x - x0) / s) ^ 2)).
Proof.
  intros Hd Hs. unfold signal_gauss.
  rewrite (bkg_defined x a b c d e f Hd).
  now rewrite (gaussian_defined x x0 s mu Hs).
Qed.

Lemma by_keyword9_call (fn : func9) (x : R) (kw : gmap string R)
    (a b c d e f x0 s mu : R) :
  kw !! "a" = Some a -> kw !! "b" = Some b -> kw !! "c" = Some c ->
  kw !! "d" = Some d -> kw !! "e" = Some e -> kw !! "f" = Some f ->
  kw !! "x0" = Some x0 -> kw !! "s" = Some s -> kw !! "mu" = Some mu ->
  by_keyword9 fn x kw = fn x a b c d e f x0 s mu.
Proof. unfold by_keyword9. now intros -> -> -> -> -> -> -> -> ->. Qed.

Lemma sample_fit_sig_runs :
  exists res : Lmfit.ModelResult,
    fit_sig Lmfit.bound_fit [3] [1] [2] 3 sample_init signal_gauss 5 true false = Some res.
Proof.
  rewrite (fit_sig_unfold Lmfit.bound_fit [3] [1] [2] 3 sample_init signal_gauss
             5 true false 2 1 1 1 2 1) by (reflexivity || (repeat constructor; lra)).
  unfold Lmfit.bound_fit. cbn -[signal_gauss].
  rewrite (by_keyword9_call signal_gauss 3 _ 2 1 1 1 2 1 3 (16 * 651) 0)
    by reflexivity.
  rewrite signal_gauss_defined by lra. cbn.
  eexists. reflexivity.
Qed.

Lemma fit_sig_keeps_background_witness :
  exists (res : Lmfit.ModelResult) (ps : gmap string Lmfit.Param) (weights : list R),
    Lmfit.bound_fit {| Lmfit.func := by_keyword9 signal_gauss |} [1] [3] ps weights
      = Some res /\
    forall name, name ∈ ["a"; "b"; "c"; "d"; "e"; "f"] ->
      exists (v : R) (p : Lmfit.Param),
        sample_init !! name = Some v /\
        ps !! name = Some {| Lmfit.value := v; Lmfit.vary := false;
                             Lmfit.min := None; Lmfit.max := None |} /\
        Lmfit.params res !! name = Some p /\
        Lmfit.value p = v.
Proof.
  destruct sample_fit_sig_runs as [res Hres]. exists res.
  exact (fit_sig_keeps_background Lmfit.bound_fit [3] [1] [2] 3 sample_init
           signal_gauss 5 true res bound_fit_holds_fixed Hres).
Defined.

(* ------------------------------------------------------------------ *)
(** ** The plots *)

Lemma py_int_above (r : R) : r < IZR (py_int r + 1).
Proof.
  unfold py_int. rewrite plus_IZR.
  destruct (Rle_dec 0 r).
  - pose proof (Zfloor_bound r). lra.
  - pose proof (Zceil_bound r). lra.
Qed.

Lemma py_int_lower (r : R) : -2 < r -> (-1 <= py_int r)%Z.
Proof.
  intros Hr. unfold py_int. destruct (Rle_dec 0 r) as [Hpos | Hneg].
  - pose proof (Zfloor_lub 0 r Hpos). lia.
  - pose proof (Zceil_bound r) as [_ Hc].
    assert (IZR (-2) < IZR (Zceil r)) as Hlt by lra.
    apply lt_IZR in Hlt. lia.
Qed.

Lemma np_max_defined (arr : list R) : arr <> [] -> is_Some (Np.max arr).
Proof. destruct arr; [congruence | eexists; reflexivity]. Qed.

Lemma np_min_defined (arr : list R) : arr <> [] -> is_Some (Np.min arr).
Proof. destruct arr; [congruence | eexists; reflexivity]. Qed.

Lemma norm_fit_defined (data : list R) : data <> [] -> is_Some (Norm.fit data).
Proof.
  intros Hne. unfold Norm.fit.
  assert (INR (length data) <> 0) as Hn.
  { apply not_0_INR. destruct data; [congruence | discriminate]. }
  rewrite (div_defined _ _ Hn). cbn. rewrite (div_defined _ _ Hn). cbn. eauto.
Qed.

Lemma np_mul_same_length (a b : list R) :
  length a = length b -> Np.mul a b = Some (zip_with Rmult a b).
Proof. intros H. unfold Np.mul. now rewrite decide_True. Qed.

Section Steps.
Context {A : Type} (k : unit -> Run A) (h : gmap positive Lmfit.ModelResult)
  (cv : list Plt.cmd).

Lemma run_draw (c : Plt.cmd) :
  (draw c ≫= k) {| heap := h; canvas := cv |} =
  k tt {| heap := h; canvas := cv ++ [c] |}.
Proof. reflexivity. Qed.

Lemma run_ax_plot a xs ys fmt color label :
  length xs = length ys ->
  (ax_plot a xs ys fmt color label ≫= k) {| heap := h; canvas := cv |} =
  k tt {| heap := h; canvas := cv ++ [Plt.plot a xs ys fmt color label] |}.
Proof. intros H. unfold ax_plot. now rewrite decide_True. Qed.

Lemma run_ax_scatter a xs ys label :
  length xs = length ys ->
  (ax_scatter a xs ys label ≫= k) {| heap := h; canvas := cv |} =
  k tt {| heap := h; canvas := cv ++ [Plt.scatter a xs ys label] |}.
Proof. intros H. unfold ax_scatter. now rewrite decide_True. Qed.

Lemma run_ax_hist a data bins density lo hi :
  (lo <= hi)%Z ->
  (ax_hist a data bins density lo hi ≫= k) {| heap := h; canvas := cv |} =
  k tt {| heap := h; canvas := cv ++ [Plt.hist a data bins density lo hi] |}.
Proof. intros H. unfold ax_hist. now rewrite decide_True. Qed.
End Steps.

Lemma run_attr {A B : Type} (get : Lmfit.ModelResult -> A) (ref : positive)
    (k : A -> Run B) (h : gmap positive Lmfit.ModelResult) (cv : list Plt.cmd)
    (obj : Lmfit.ModelResult) :
  h !! ref = Some obj ->
  (attr get ref ≫= k) {| heap := h; canvas := cv |} =
  k (get obj) {| heap := h; canvas := cv |}.
Proof. intros H. unfold attr, mbind, Run_bind. cbn. now rewrite H. Qed.

Lemma run_or_raise {A B : Type} (e : exn) (o : option A) (a : A)
    (k : A -> Run B) (σ : world) :
  o = Some a -> (or_raise e o ≫= k) σ = k a σ.
Proof. now intros ->. Qed.

Ltac run_step Hheap :=
  first
    [ rewrite run_draw
    | rewrite run_ax_plot
        by first [ reflexivity
                 | rewrite ?length_fmap, ?length_map, ?length_seq; congruence ]
    | rewrite run_ax_scatter by first [ reflexivity | rewrite ?length_zip_with; lia ]
    | rewrite run_ax_hist by lia
    | rewrite (run_attr _ _ _ _ _ _ Hheap)
    | erewrite run_or_raise by eassumption ].

Lemma plot_fit_runs (x y w : list R) (fit_result : positive) (σ : world)
    (res : Lmfit.ModelResult) :
  heap σ !! fit_result = Some res -> well_formed x y w res ->
  exists (top : R) (drawn : list Plt.cmd),
    Np.max (Lmfit.residual res) = Some top /\
    plot_fit x y w fit_result σ =
      Return fit_result {| heap := heap σ; canvas := canvas σ ++ drawn |} /\
    Plt.hist Plt.Ax2 (Lmfit.residual res) 15 true
      (- (py_int top + 1)) (py_int top + 1) ∈ drawn.
Proof.
  intros Hheap (Hx & Hy & Hw & Hb & Hr & Htop).
  assert (Lmfit.residual res <> []) as Hres.
  { intros E. rewrite E in Hr. destruct x; [congruence | discriminate]. }
  destruct (np_max_defined _ Hres) as [top Hmax].
  destruct (np_min_defined _ Hx) as [fmin Hfmin].
  destruct (np_max_defined _ Hx) as [fmax Hfmax].
  destruct (norm_fit_defined _ Hres) as [[mean std] Hnorm].
  pose proof (py_int_lower top (Htop top Hmax)) as Hlow.
  pose proof (np_mul_same_length _ _ (eq_trans Hr (eq_sym Hw))) as Hmul.
  assert (rangeMax (Lmfit.residual res) = Some (py_int top + 1)%Z) as Hrange.
  { unfold rangeMax. now rewrite Hmax. }
  exists top. destruct σ as [h cv]. cbn [heap canvas] in *.
  unfold plot_fit, Np.neg.
  repeat run_step Hheap.
  rewrite <- !app_assoc. eexists. split; [exact Hmax |]. split; [reflexivity |].
  cbn [app]. repeat first [apply list_elem_of_here | apply list_elem_of_further].
Qed.



Lemma sample_well_formed : well_formed [1; 2] [5; 6] [2; 4] sample_result.
Proof.
  repeat split; try reflexivity; try discriminate.
  cbn. intros top [= <-]. unfold Rmax. destruct (Rle_dec 0 (-0.25)); lra.
Qed.



(** The range can miss the maximum from below: for a maximum residual of
    -1.5 the range is [0, 0]. *)
Lemma histogram_range_misses_low_max :
  rangeMax [-1.5] = Some 0%Z /\ ~ (- IZR 0 <= -1.5 <= IZR 0).
Proof.
  split; [| lra].
  unfold rangeMax, py_int. cbn. destruct (Rle_dec 0 (-1.5)); [lra |].
  rewrite (Zceil_eq (-1) (-1.5)) by lra. reflexivity.
Qed.

(** Outside [well_formed]: a maximum residual of -3 asks for the range
    [2, -2], and the histogram call raises. *)
Lemma plot_fit_inverted_range_raises :
  plot_fit [1] [1] [1] 1%positive (one_result low_result) = Raise ValueError.
Proof.
  assert (py_int (-3) = (-3)%Z) as Hint.
  { unfold py_int. destruct (Rle_dec 0 (-3)); [lra | apply Zceil_eq; lra]. }
  assert (({[ 1%positive := low_result ]} : gmap positive Lmfit.ModelResult)
            !! 1%positive = Some low_result) as Hheap by reflexivity.
  unfold one_result, plot_fit.
  repeat first [ run_step Hheap | erewrite run_or_raise by reflexivity ].
  unfold ax_hist. rewrite decide_False by (cbn [fold_left]; rewrite Hint; lia).
  reflexivity.
Qed.





(* ------------------------------------------------------------------ *)
(** ** Further properties of the model functions *)

Lemma sum_sq_zero (u v : R) : u ^ 2 + v ^ 2 = 0 <-> u = 0 /\ v = 0.
Proof. split; [intros H; split; nra | intros [-> ->]; ring]. Qed.

Lemma sum_sq_pos (u v : R) : u ^ 2 + v ^ 2 <> 0 -> 0 < u ^ 2 + v ^ 2.
Proof.
  intros H. pose proof (pow2_ge_0 u). pose proof (pow2_ge_0 v).
  destruct (Rle_lt_or_eq_dec 0 (u ^ 2 + v ^ 2)) as [Hlt | Heq]; [lra | exact Hlt |].
  now elim H.
Qed.

Lemma gaussian_shape_range (t : R) : 0 < exp (- 0.5 * t ^ 2) <= 1.
Proof.
  split; [apply exp_pos |].
  rewrite <- exp_0. destruct (Req_dec_T t 0) as [-> | Ht].
  - right. f_equal. ring.
  - left. apply exp_increasing. nra.
Qed.

(** X1: [bkg] has no value exactly on the pole: at x = c when d = 0. *)
Theorem bkg_undefined_iff (x a b c d e f : R) :
  bkg x a b c d e f = None <-> x = c /\ d = 0.
Proof.
  rewrite bkg_unfold. unfold bkg_closed, Py.div.
  destruct (Req_dec_T ((x - c) ^ 2 + d ^ 2) 0) as [Hz | Hnz]; cbn.
  - apply sum_sq_zero in Hz as [Hx ->]. split; [intros _; split; lra | reflexivity].
  - split; [discriminate |]. intros [-> ->]. elim Hnz. ring.
Qed.


(** X3: At its centre the Gaussian takes the value mu, and the Maxwell shape
    the value mu·x0²/s³. *)
Theorem signal_value_at_centre (x0 s mu : R) :
  s <> 0 ->
  gaussian x0 x0 s mu = Some mu /\
  maxwell x0 x0 s mu = Some (mu * x0 ^ 2 / s ^ 3).
Proof.
  intros Hs. rewrite (gaussian_defined _ _ _ _ Hs), (maxwell_defined _ _ _ _ Hs).
  replace (- 0.5 * ((x0 - x0) / s) ^ 2) with 0 by (field; assumption).
  rewrite exp_0. split; f_equal; ring.
Qed.

Lemma signal_value_at_centre_witness :
  gaussian 3 3 2 5 = Some 5 /\ maxwell 3 3 2 5 = Some (5 * 3 ^ 2 / 2 ^ 3).
Proof. apply (signal_value_at_centre 3 2 5). lra. Defined.

(** X4: The Gaussian never exceeds its amplitude in size, and has its sign. *)
Theorem gaussian_bounded_by_mu (x x0 s mu : R) :
  s <> 0 ->
  exists g : R,
    gaussian x x0 s mu = Some g /\
    Rabs g <= Rabs mu /\
    (0 <= mu -> 0 <= g <= mu) /\
    (mu <= 0 -> mu <= g <= 0).
Proof.
  intros Hs. eexists. split; [apply (gaussian_defined _ _ _ _ Hs) |].
  pose proof (gaussian_shape_range ((x - x0) / s)) as [Hpos Hle].
  set (k := exp _) in *.
  split; [| split; intros Hmu; nra].
  rewrite Rabs_mult, (Rabs_pos_eq k) by lra.
  pose proof (Rabs_pos mu). nra.
Qed.

Lemma gaussian_bounded_by_mu_witness :
  exists g : R,
    gaussian 1 3 2 5 = Some g /\
    Rabs g <= Rabs 5 /\
    (0 <= 5 -> 0 <= g <= 5) /\
    (5 <= 0 -> 5 <= g <= 0).
Proof. apply (gaussian_bounded_by_mu 1 3 2 5). lra. Defined.

(** X5: With a non-negative amplitude and a positive width, as [fit_sig] sets
    them up, neither combined model goes below its background. *)
Theorem signal_not_below_background (x a b c d e f x0 s mu : R) :
  (x - c) ^ 2 + d ^ 2 <> 0 -> 0 < s -> 0 <= mu ->
  exists bg sg sm : R,
    bkg x a b c d e f = Some bg /\
    signal_gauss x a b c d e f x0 s mu = Some sg /\
    signal_maxwell x a b c d e f x0 s mu = Some sm /\
    bg <= sg /\ bg <= sm.
Proof.
  intros Hd Hs Hmu.
  assert (s <> 0) as Hs0 by lra.
  unfold signal_gauss, signal_maxwell.
  rewrite (bkg_defined _ _ _ _ _ _ _ Hd), (gaussian_defined _ _ _ _ Hs0),
    (maxwell_defined _ _ _ _ Hs0). cbn.
  pose proof (gaussian_shape_range ((x - x0) / s)) as [Hpos _].
  set (k := exp _) in *. set (bg := _ + f * (x - c)).
  assert (0 <= mu * k) as Hg by nra.
  assert (0 <= mu * x ^ 2 / s ^ 3) as Hq.
  { apply Rmult_le_pos; [nra |]. left. apply Rinv_0_lt_compat.
    now apply pow_lt. }
  assert (0 <= mu * x ^ 2 / s ^ 3 * k) as Hm by nra.
  exists bg, (bg + mu * k), (bg + mu * x ^ 2 / s ^ 3 * k).
  repeat split; lra.
Qed.

Lemma signal_not_below_background_witness :
  exists bg sg sm : R,
    bkg 3 2 1 1 1 2 1 = Some bg /\
    signal_gauss 3 2 1 1 1 2 1 3 2 5 = Some sg /\
    signal_maxwell 3 2 1 1 1 2 1 3 2 5 = Some sm /\
    bg <= sg /\ bg <= sm.
Proof. apply (signal_not_below_background 3 2 1 1 1 2 1 3 2 5); lra. Defined.

(** X6: The Gaussian is symmetric about x0 and does not see the sign of s; the
    Maxwell shape changes sign with s. *)
Theorem signal_symmetries (t x x0 s mu : R) :
  gaussian (x0 + t) x0 s mu = gaussian (x0 - t) x0 s mu /\
  gaussian x x0 (- s) mu = gaussian x x0 s mu /\
  maxwell x x0 (- s) mu = Ropp <$> maxwell x x0 s mu.
Proof.
  destruct (Req_dec_T s 0) as [-> | Hs].
  - replace (- 0) with 0 by ring. unfold gaussian, maxwell.
    replace (0 ^ 3) with 0 by ring. rewrite !div_by_zero. auto.
  - assert (- s <> 0) as Hns by lra.
    assert (forall u, (u / - s) ^ 2 = (u / s) ^ 2) as Heven
      by (intros u; field; assumption).
    rewrite !(gaussian_defined _ _ _ _ Hs), !(gaussian_defined _ _ _ _ Hns),
      (maxwell_defined _ _ _ _ Hs), (maxwell_defined _ _ _ _ Hns).
    rewrite !Heven.
    replace (((x0 + t - x0) / s) ^ 2) with (((x0 - t - x0) / s) ^ 2)
      by (field; assumption).
    repeat split. cbn. f_equal. field. assumption.
Qed.

(** X7: Moving the data and every centre along the frequency axis by one
    offset changes neither the background nor the Gaussian model. *)
Theorem models_translation_invariant (t x a b c d e f x0 s mu : R) :
  bkg (x + t) (a + t) b (c + t) d e f = bkg x a b c d e f /\
  gaussian (x + t) (x0 + t) s mu = gaussian x x0 s mu /\
  signal_gauss (x + t) (a + t) b (c + t) d e f (x0 + t) s mu =
    signal_gauss x a b c d e f x0 s mu.
Proof.
  assert (Hb : bkg (x + t) (a + t) b (c + t) d e f = bkg x a b c d e f).
  { rewrite !bkg_unfold. unfold bkg_closed.
    replace (x + t - (a + t)) with (x - a) by ring.
    replace (x + t - (c + t)) with (x - c) by ring. reflexivity. }
  assert (Hg : gaussian (x + t) (x0 + t) s mu = gaussian x x0 s mu).
  { unfold gaussian. replace (x + t - (x0 + t)) with (x - x0) by ring. reflexivity. }
  unfold signal_gauss. rewrite Hb, Hg. auto.
Qed.

(** X8: Away from the pole the resonance term is never negative, so [bkg]
    is at least its linear term, and at least 0 when f = 0. *)
Theorem bkg_at_least_linear_term (x a b c d e f : R) :
  (x - c) ^ 2 + d ^ 2 <> 0 ->
  exists v : R,
    bkg x a b c d e f = Some v /\ f * (x - c) <= v /\ (f = 0 -> 0 <= v).
Proof.
  intros Hd. eexists. split; [apply (bkg_defined _ _ _ _ _ _ _ Hd) |].
  assert (0 <= e ^ 2 * ((x - a) ^ 2 + b ^ 2) / ((x - c) ^ 2 + d ^ 2)) as Hq.
  { pose proof (pow2_ge_0 e). pose proof (pow2_ge_0 (x - a)). pose proof (pow2_ge_0 b).
    apply Rmult_le_pos; [apply Rmult_le_pos; lra |].
    left. apply Rinv_0_lt_compat. now apply sum_sq_pos. }
  split; [lra | intros ->; lra].
Qed.

Lemma bkg_at_least_linear_term_witness :
  exists v : R,
    bkg 3 2 1 1 1 2 1 = Some v /\ 1 * (3 - 1) <= v /\ (1 = 0 -> 0 <= v).
Proof. apply (bkg_at_least_linear_term 3 2 1 1 1 2 1). lra. Defined.

(** X9: When zero and pole coincide (a = c and b² = d²) the resonance cancels
    and [bkg] is the straight line e² + f·(x − c). *)
Theorem bkg_pole_zero_cancel (x a b c d e f : R) :
  (x - c) ^ 2 + d ^ 2 <> 0 -> a = c -> b ^ 2 = d ^ 2 ->
  bkg x a b c d e f = Some (e ^ 2 + f * (x - c)).
Proof.
  intros Hd -> Hb. rewrite (bkg_defined _ _ _ _ _ _ _ Hd), Hb.
  f_equal. field. assumption.
Qed.

Lemma bkg_pole_zero_cancel_witness :
  bkg 3 1 (-2) 1 2 5 7 = Some (5 ^ 2 + 7 * (3 - 1)).
Proof. apply (bkg_pole_zero_cancel 3 1 (-2) 1 2 5 7); lra. Defined.

(** X10: With amplitude 0 and a non-zero width, both combined models are the
    background alone. *)
Theorem signal_zero_amplitude (x a b c d e f x0 s : R) :
  s <> 0 ->
  signal_gauss x a b c d e f x0 s 0 = bkg x a b c d e f /\
  signal_maxwell x a b c d e f x0 s 0 = bkg x a b c d e f.
Proof.
  intros Hs. unfold signal_gauss, signal_maxwell.
  rewrite (gaussian_defined _ _ _ _ Hs), (maxwell_defined _ _ _ _ Hs).
  destruct (bkg x a b c d e f) as [bg |]; cbn; [| auto].
  split; f_equal; field; assumption.
Qed.

Lemma signal_zero_amplitude_witness :
  signal_gauss 3 2 1 1 1 2 1 3 2 0 = bkg 3 2 1 1 1 2 1 /\
  signal_maxwell 3 2 1 1 1 2 1 3 2 0 = bkg 3 2 1 1 1 2 1.
Proof. apply (signal_zero_amplitude 3 2 1 1 1 2 1 3 2). lra. Defined.

(* ------------------------------------------------------------------ *)
(** ** Further properties of the two fits *)

Lemma fit_bkg_unfold (lmfit_fit : Lmfit.fit_method) (x y w : list R) (center ref : R) :
  0 <= ref -> Forall (fun r => r <> 0) w ->
  let free v := {| Lmfit.value := v; Lmfit.vary := true;
                   Lmfit.min := None; Lmfit.max := None |} in
  let near v := {| Lmfit.value := v; Lmfit.vary := true;
                   Lmfit.min := Some (v * 0.999); Lmfit.max := Some (v * 1.01) |} in
  fit_bkg lmfit_fit x y w center ref =
    lmfit_fit {| Lmfit.func := by_keyword6 bkg |} y x
      {[ "a" := near center; "b" := free 2e4; "c" := near center;
         "d" := free 2.2e4; "e" := free (1e-2 * sqrt ref);
         "f" := free (1e-12 * ref) ]}
      (map (fun r => 1 / r) w).
Proof.
  intros Href Hw free near. unfold fit_bkg.
  rewrite (np_sqrt_defined _ Href), (rdiv_defined _ _ Hw). cbn.
  now rewrite insert_empty.
Qed.

Lemma by_keyword6_call (fn : func6) (x : R) (kw : gmap string R) (a b c d e f : R) :
  kw !! "a" = Some a -> kw !! "b" = Some b -> kw !! "c" = Some c ->
  kw !! "d" = Some d -> kw !! "e" = Some e -> kw !! "f" = Some f ->
  by_keyword6 fn x kw = fn x a b c d e f.
Proof. unfold by_keyword6. now intros -> -> -> -> -> ->. Qed.

(** X11: A missing background entry in [init_params] stops [fit_sig] before
    the solver is reached, whatever the solver and the flags. *)
Theorem fit_sig_missing_key (lmfit_fit : Lmfit.fit_method) (x y w : list R)
    (x_0 : R) (init_params : gmap string R) (signal : func9) (mu_init : R)
    (mu_vary par_vary : bool) (name : string) :
  name ∈ ["a"; "b"; "c"; "d"; "e"; "f"] -> init_params !! name = None ->
  fit_sig lmfit_fit x y w x_0 init_params signal mu_init mu_vary par_vary = None.
Proof.
  intros Hname Hmiss. unfold fit_sig.
  destruct (init_params !! "a") eqn:Ha; [| reflexivity].
  destruct (init_params !! "b") eqn:Hb; [| reflexivity].
  destruct (init_params !! "c") eqn:Hc; [| reflexivity].
  destruct (init_params !! "d") eqn:Hd; [| reflexivity].
  destruct (init_params !! "e") eqn:He; [| reflexivity].
  destruct (init_params !! "f") eqn:Hf; [| reflexivity].
  exfalso.
  repeat (apply elem_of_cons in Hname as [-> | Hname]; [congruence |]).
  now apply elem_of_nil in Hname.
Qed.

Lemma fit_sig_missing_key_witness :
  fit_sig Lmfit.bound_fit [3] [1] [2] 3 init_without_c signal_gauss 5 true false = None.
Proof.
  apply (fit_sig_missing_key Lmfit.bound_fit [3] [1] [2] 3 init_without_c
           signal_gauss 5 true false "c").
  - set_solver.
  - reflexivity.
Defined.

(** X12: [fit_sig] reads nothing of [init_params] but the six background
    entries: other entries, such as the mu, x0 and s of an earlier signal
    fit, make no difference. *)
Theorem fit_sig_reads_background_only (lmfit_fit : Lmfit.fit_method)
    (x y w : list R) (x_0 : R) (init1 init2 : gmap string R) (signal : func9)
    (mu_init : R) (mu_vary par_vary : bool) :
  (forall name, name ∈ ["a"; "b"; "c"; "d"; "e"; "f"] ->
                init1 !! name = init2 !! name) ->
  fit_sig lmfit_fit x y w x_0 init1 signal mu_init mu_vary par_vary =
  fit_sig lmfit_fit x y w x_0 init2 signal mu_init mu_vary par_vary.
Proof.
  intros Hsame. unfold fit_sig.
  rewrite (Hsame "a"), (Hsame "b"), (Hsame "c"), (Hsame "d"), (Hsame "e"),
    (Hsame "f") by set_solver.
  reflexivity.
Qed.

Lemma fit_sig_reads_background_only_witness :
  fit_sig Lmfit.bound_fit [3] [1] [2] 3 sample_init signal_gauss 5 true false =
  fit_sig Lmfit.bound_fit [3] [1] [2] 3 (<["mu" := 7]> sample_init) signal_gauss
    5 true false.
Proof.
  apply (fit_sig_reads_background_only Lmfit.bound_fit [3] [1] [2] 3 sample_init
           (<["mu" := 7]> sample_init) signal_gauss 5 true false).
  intros name Hname.
  repeat (apply elem_of_cons in Hname as [-> | Hname]; [reflexivity |]).
  now apply elem_of_nil in Hname.
Defined.



(** X14: The seeds of a and c lie strictly inside their bounds exactly when
    [center] is positive; for a negative [center] the bounds are handed
    over inverted, and for 0 they coincide. *)
Theorem fit_bkg_seed_inside_bounds (lmfit_fit : Lmfit.fit_method)
    (x y w : list R) (center ref : R) :
  0 <= ref -> Forall (fun r => r <> 0) w ->
  exists (ps : gmap string Lmfit.Param) (weights : list R),
    fit_bkg lmfit_fit x y w center ref =
      lmfit_fit {| Lmfit.func := by_keyword6 bkg |} y x ps weights /\
    forall name, name ∈ ["a"; "c"] ->
      exists (p : Lmfit.Param) (lo hi : R),
        ps !! name = Some p /\ Lmfit.min p = Some lo /\ Lmfit.max p = Some hi /\
        (lo < Lmfit.value p < hi <-> 0 < center) /\
        (center < 0 -> hi < lo) /\
        (center = 0 -> lo = hi).
Proof.
  intros Href Hw. do 2 eexists.
  split; [exact (fit_bkg_unfold lmfit_fit x y w center ref Href Hw) |].
  intros name Hname.
  repeat (apply elem_of_cons in Hname as [-> | Hname];
    [ do 3 eexists; split; [reflexivity |]; cbn;
      split; [reflexivity |]; split; [reflexivity |];
      repeat split; intros; lra |]).
  now apply elem_of_nil in Hname.
Qed.

Lemma fit_bkg_seed_inside_bounds_witness :
  exists (ps : gmap string Lmfit.Param) (weights : list R),
    fit_bkg Lmfit.bound_fit [1; 2] [5; 6] [2; 4] 1 4 =
      Lmfit.bound_fit {| Lmfit.func := by_keyword6 bkg |} [5; 6] [1; 2] ps weights /\
    forall name, name ∈ ["a"; "c"] ->
      exists (p : Lmfit.Param) (lo hi : R),
        ps !! name = Some p /\ Lmfit.min p = Some lo /\ Lmfit.max p = Some hi /\
        (lo < Lmfit.value p < hi <-> 0 < 1) /\
        (1 < 0 -> hi < lo) /\
        (1 = 0 -> lo = hi).
Proof.
  apply (fit_bkg_seed_inside_bounds Lmfit.bound_fit [1; 2] [5; 6] [2; 4] 1 4).
  - lra.
  - repeat constructor; lra.
Defined.



Lemma bound_fit_keeps_names : keeps_names Lmfit.bound_fit.
Proof.
  intros m data x ps weights res name Hrun [p Hp].
  unfold Lmfit.bound_fit in Hrun.
  destruct (mapM _ x) as [fitted |]; [| discriminate]. cbn in Hrun.
  destruct (Np.mul _ weights) as [scaled |]; [| discriminate].
  injection Hrun as <-. cbn. rewrite lookup_fmap, Hp. cbn. eauto.
Qed.

Lemma sample_fit_bkg_runs :
  exists res : Lmfit.ModelResult,
    fit_bkg Lmfit.bound_fit [1] [5] [2] 1 4 = Some res.
Proof.
  rewrite (fit_bkg_unfold Lmfit.bound_fit [1] [5] [2] 1 4)
    by (lra || (repeat constructor; lra)).
  unfold Lmfit.bound_fit. cbn -[bkg].
  rewrite (by_keyword6_call bkg 1 _ (1 * 0.999) 2e4 (1 * 0.999) 2.2e4
             (1e-2 * sqrt 4) (1e-12 * 4)) by reflexivity.
  rewrite bkg_defined by lra. cbn.
  eexists. reflexivity.
Qed.

(** X16: The two-stage fit: the best values of a [fit_bkg] result have the six
    entries [fit_sig] asks for, so the second fit reaches the solver, and
    with [par_vary=False] its result has the first fit's a..f. *)
Theorem two_stage_fit_keeps_background (lmfit_fit : Lmfit.fit_method)
    (x y w : list R) (center ref : R) (x' y' w' : list R) (x_0 : R)
    (signal : func9) (mu_init : R) (mu_vary : bool) (first : Lmfit.ModelResult) :
  Lmfit.holds_fixed lmfit_fit -> keeps_names lmfit_fit ->
  fit_bkg lmfit_fit x y w center ref = Some first ->
  Forall (fun r => r <> 0) w' ->
  exists (ps : gmap string Lmfit.Param) (weights : list R),
    fit_sig lmfit_fit x' y' w' x_0 (best_values first) signal mu_init mu_vary false =
      lmfit_fit {| Lmfit.func := by_keyword9 signal |} y' x' ps weights /\
    forall second,
      lmfit_fit {| Lmfit.func := by_keyword9 signal |} y' x' ps weights = Some second ->
      forall name, name ∈ ["a"; "b"; "c"; "d"; "e"; "f"] ->
        exists v : R,
          best_values first !! name = Some v /\ best_values second !! name = Some v.
Proof.
  intros Hfix Hnames Hfirst Hw'. unfold fit_bkg in Hfirst.
  destruct (Py.np_sqrt ref) as [root |]; [| discriminate]. cbn in Hfirst.
  destruct (Np.rdiv 1 w) as [weights1 |]; [| discriminate]. cbn in Hfirst.
  assert (Hhas : forall name, name ∈ ["a"; "b"; "c"; "d"; "e"; "f"] ->
            is_Some (best_values first !! name)).
  { intros name Hname. unfold best_values. rewrite lookup_fmap.
    apply fmap_is_Some, (Hnames _ _ _ _ _ _ name Hfirst).
    repeat (apply elem_of_cons in Hname as [-> | Hname]; [eexists; reflexivity |]).
    now apply elem_of_nil in Hname. }
  destruct (Hhas "a") as [ia Ha]; [set_solver |].
  destruct (Hhas "b") as [ib Hb]; [set_solver |].
  destruct (Hhas "c") as [ic Hc]; [set_solver |].
  destruct (Hhas "d") as [id Hd]; [set_solver |].
  destruct (Hhas "e") as [ie He]; [set_solver |].
  destruct (Hhas "f") as [i_f Hf]; [set_solver |].
  pose proof (fit_sig_unfold lmfit_fit x' y' w' x_0 (best_values first) signal
                mu_init mu_vary false _ _ _ _ _ _ Ha Hb Hc Hd He Hf Hw') as Hcall.
  cbv zeta in Hcall.
  match type of Hcall with
  | _ = lmfit_fit _ _ _ ?m _ => set (ps := m) in Hcall
  end.
  exists ps, (map (fun r => 1 / r) w'). split; [exact Hcall |].
  intros second Hsecond name Hname.
  assert (Hkeep : forall key v p, best_values first !! key = Some v ->
            ps !! key = Some p -> Lmfit.vary p = false -> Lmfit.value p = v ->
            exists v', best_values first !! key = Some v' /\
                       best_values second !! key = Some v').
  { intros key v p Hv Hp Hvary Hval.
    destruct (Hfix _ _ _ _ _ _ key p Hsecond Hp Hvary) as (p' & Hp' & Hsame).
    exists v. split; [exact Hv |].
    unfold best_values. rewrite lookup_fmap, Hp'. cbn. congruence. }
  apply elem_of_cons in Hname as [-> | Hname]; [exact (Hkeep "a" _ _ Ha eq_refl eq_refl eq_refl) |].
  apply elem_of_cons in Hname as [-> | Hname]; [exact (Hkeep "b" _ _ Hb eq_refl eq_refl eq_refl) |].
  apply elem_of_cons in Hname as [-> | Hname]; [exact (Hkeep "c" _ _ Hc eq_refl eq_refl eq_refl) |].
  apply elem_of_cons in Hname as [-> | Hname]; [exact (Hkeep "d" _ _ Hd eq_refl eq_refl eq_refl) |].
  apply elem_of_cons in Hname as [-> | Hname]; [exact (Hkeep "e" _ _ He eq_refl eq_refl eq_refl) |].
  apply elem_of_cons in Hname as [-> | Hname]; [exact (Hkeep "f" _ _ Hf eq_refl eq_refl eq_refl) |].
  now apply elem_of_nil in Hname.
Qed.

Lemma two_stage_fit_keeps_background_witness :
  exists (first : Lmfit.ModelResult) (ps : gmap string Lmfit.Param) (weights : list R),
    fit_bkg Lmfit.bound_fit [1] [5] [2] 1 4 = Some first /\
    fit_sig Lmfit.bound_fit [1] [5] [2] 3 (best_values first) signal_gauss 5 true false =
      Lmfit.bound_fit {| Lmfit.func := by_keyword9 signal_gauss |} [5] [1] ps weights /\
    forall second,
      Lmfit.bound_fit {| Lmfit.func := by_keyword9 signal_gauss |} [5] [1] ps weights
        = Some second ->
      forall name, name ∈ ["a"; "b"; "c"; "d"; "e"; "f"] ->
        exists v : R,
          best_values first !! name = Some v /\ best_values second !! name = Some v.
Proof.
  destruct sample_fit_bkg_runs as [first Hfirst].
  destruct (two_stage_fit_keeps_background Lmfit.bound_fit [1] [5] [2] 1 4
              [1] [5] [2] 3 signal_gauss 5 true first
              bound_fit_holds_fixed bound_fit_keeps_names Hfirst)
    as (ps & weights & Hcall & Hkeep).
  - repeat constructor; lra.
  - exists first, ps, weights. auto.
Defined.

(* ------------------------------------------------------------------ *)
(** ** Further properties of the plots *)

Section Inversion.
Context {A : Type} (k : unit -> Run A) (h : gmap positive Lmfit.ModelResult)
  (cv : list Plt.cmd) (r : A) (σ' : world).

Lemma inv_ax_plot a xs ys fmt color label :
  (ax_plot a xs ys fmt color label ≫= k) {| heap := h; canvas := cv |} = Return r σ' ->
  length xs = length ys /\
  k tt {| heap := h; canvas := cv ++ [Plt.plot a xs ys fmt color label] |} = Return r σ'.
Proof.
  unfold ax_plot. destruct (decide (length xs = length ys)) as [Hlen | Hlen].
  - rewrite run_draw. auto.
  - discriminate.
Qed.

Lemma inv_ax_scatter a xs ys label :
  (ax_scatter a xs ys label ≫= k) {| heap := h; canvas := cv |} = Return r σ' ->
  length xs = length ys /\
  k tt {| heap := h; canvas := cv ++ [Plt.scatter a xs ys label] |} = Return r σ'.
Proof.
  unfold ax_scatter. destruct (decide (length xs = length ys)) as [Hlen | Hlen].
  - rewrite run_draw. auto.
  - discriminate.
Qed.

Lemma inv_ax_hist a data bins density lo hi :
  (ax_hist a data bins density lo hi ≫= k) {| heap := h; canvas := cv |} = Return r σ' ->
  (lo <= hi)%Z /\
  k tt {| heap := h; canvas := cv ++ [Plt.hist a data bins density lo hi] |} = Return r σ'.
Proof.
  unfold ax_hist. destruct (decide (lo <= hi)%Z) as [Hle | Hle].
  - rewrite run_draw. auto.
  - discriminate.
Qed.
End Inversion.

Lemma inv_attr {A B : Type} (get : Lmfit.ModelResult -> A) (ref : positive)
    (k : A -> Run B) (h : gmap positive Lmfit.ModelResult) (cv : list Plt.cmd)
    (r : B) (σ' : world) :
  (attr get ref ≫= k) {| heap := h; canvas := cv |} = Return r σ' ->
  exists obj, h !! ref = Some obj /\
              k (get obj) {| heap := h; canvas := cv |} = Return r σ'.
Proof.
  unfold attr, mbind, Run_bind. cbn.
  destruct (h !! ref) as [obj |]; [eauto | discriminate].
Qed.

Lemma inv_or_raise {A B : Type} (e : exn) (o : option A) (k : A -> Run B)
    (σ : world) (r : B) (σ' : world) :
  (or_raise e o ≫= k) σ = Return r σ' ->
  exists a, o = Some a /\ k a σ = Return r σ'.
Proof. destruct o as [a |]; [eauto | discriminate]. Qed.

Lemma py_int_lower_inv (r : R) : (-1 <= py_int r)%Z -> -2 < r.
Proof.
  unfold py_int. destruct (Rle_dec 0 r) as [Hpos | Hneg]; [lra |].
  intros Hz. apply IZR_le in Hz. pose proof (Zceil_bound r). lra.
Qed.

(** Everything a returning run of [plot_fit] tells about its inputs and
    about what it has drawn. *)
Lemma plot_fit_inversion (x y w : list R) (fit_result : positive) (σ : world)
    (r : positive) (σ' : world) :
  plot_fit x y w fit_result σ = Return r σ' ->
  exists (res : Lmfit.ModelResult) (top fmin fmax : R) (scaled : list R)
         (drawn : list Plt.cmd),
    heap σ !! fit_result = Some res /\
    r = fit_result /\ heap σ' = heap σ /\ canvas σ' = canvas σ ++ drawn /\
    length x = length y /\ length x = length (Lmfit.best_fit res) /\
    length x = length w /\
    Np.min x = Some fmin /\ Np.max x = Some fmax /\
    Np.max (Lmfit.residual res) = Some top /\ -2 < top /\
    Np.mul (Lmfit.residual res) w = Some scaled /\ length x = length scaled /\
    Plt.set_xlim Plt.Ax fmin fmax ∈ drawn /\
    Plt.set_xlim Plt.Ax3 fmin fmax ∈ drawn /\
    Plt.scatter Plt.Ax3 x scaled "residuals" ∈ drawn /\
    Plt.plot Plt.Ax3 x (Some <$> w) "" "" "+$\sigma$" ∈ drawn /\
    Plt.plot Plt.Ax3 x (Some <$> Np.neg w) "" "" "-$\sigma$" ∈ drawn.
Proof.
  destruct σ as [h cv]. unfold plot_fit. intros H.
  rewrite !run_draw in H.
  apply inv_ax_plot in H as [Ly H].
  apply inv_attr in H as (res & Hres & H).
  apply inv_ax_plot in H as [Lb H].
  apply inv_or_raise in H as (fmin & Hfmin & H).
  apply inv_or_raise in H as (fmax & Hfmax & H).
  rewrite !run_draw in H.
  rewrite (run_attr _ _ _ _ _ _ Hres) in H.
  apply inv_or_raise in H as (rmax & Hrange & H).
  rewrite (run_attr _ _ _ _ _ _ Hres) in H.
  apply inv_ax_hist in H as [Hhist H].
  rewrite (run_attr _ _ _ _ _ _ Hres) in H.
  apply inv_or_raise in H as (fit_res & Hnorm & H).
  apply inv_ax_plot in H as [_ H].
  rewrite !run_draw in H.
  rewrite (run_attr _ _ _ _ _ _ Hres) in H.
  apply inv_or_raise in H as (scaled & Hmul & H).
  apply inv_ax_scatter in H as [Ls H].
  apply inv_ax_plot in H as [Lw H].
  apply inv_ax_plot in H as [_ H].
  rewrite !run_draw in H.
  injection H as <- <-.
  unfold rangeMax in Hrange.
  destruct (Np.max (Lmfit.residual res)) as [top |] eqn:Hmax; [| discriminate].
  injection Hrange as <-.
  rewrite length_fmap in Ly, Lb, Lw.
  exists res, top, fmin, fmax, scaled. eexists.
  cbn [heap canvas]. rewrite <- !app_assoc.
  repeat (split; [first [ eassumption | reflexivity | apply py_int_lower_inv; lia ] |]).
  cbn [app].
  repeat split; repeat first [apply list_elem_of_here | apply list_elem_of_further].
Qed.

Lemma fold_left_Rmax_spec (l : list R) (a : R) :
  (fold_left Rmax l a = a \/ fold_left Rmax l a ∈ l) /\
  a <= fold_left Rmax l a /\
  forall r, r ∈ l -> r <= fold_left Rmax l a.
Proof.
  revert a. induction l as [| b l IH]; intros a; cbn.
  - split; [now left |]. split; [lra |]. intros r Hr. now apply elem_of_nil in Hr.
  - destruct (IH (Rmax a b)) as (Hin & Hge & Hall).
    pose proof (Rmax_l a b). pose proof (Rmax_r a b).
    split; [| split].
    + destruct Hin as [Heq | Hin]; [| right; now apply list_elem_of_further].
      rewrite Heq. unfold Rmax. destruct (Rle_dec a b); [right; left | now left].
    + lra.
    + intros r [-> | Hr]%elem_of_cons; [lra | auto].
Qed.

Lemma fold_left_Rmin_spec (l : list R) (a : R) :
  (fold_left Rmin l a = a \/ fold_left Rmin l a ∈ l) /\
  fold_left Rmin l a <= a /\
  forall r, r ∈ l -> fold_left Rmin l a <= r.
Proof.
  revert a. induction l as [| b l IH]; intros a; cbn.
  - split; [now left |]. split; [lra |]. intros r Hr. now apply elem_of_nil in Hr.
  - destruct (IH (Rmin a b)) as (Hin & Hge & Hall).
    pose proof (Rmin_l a b). pose proof (Rmin_r a b).
    split; [| split].
    + destruct Hin as [Heq | Hin]; [| right; now apply list_elem_of_further].
      rewrite Heq. unfold Rmin. destruct (Rle_dec a b); [now left | right; left].
    + lra.
    + intros r [-> | Hr]%elem_of_cons; [lra | auto].
Qed.

Lemma np_max_spec (arr : list R) (m : R) :
  Np.max arr = Some m -> m ∈ arr /\ forall r, r ∈ arr -> r <= m.
Proof.
  destruct arr as [| a l]; [discriminate |]. cbn. intros [= <-].
  destruct (fold_left_Rmax_spec l a) as (Hin & Hge & Hall). split.
  - destruct Hin as [-> | Hin]; [left | now right].
  - intros r [-> | Hr]%elem_of_cons; auto.
Qed.

Lemma np_min_spec (arr : list R) (m : R) :
  Np.min arr = Some m -> m ∈ arr /\ forall r, r ∈ arr -> m <= r.
Proof.
  destruct arr as [| a l]; [discriminate |]. cbn. intros [= <-].
  destruct (fold_left_Rmin_spec l a) as (Hin & Hge & Hall). split.
  - destruct Hin as [-> | Hin]; [left | now right].
  - intros r [-> | Hr]%elem_of_cons; auto.
Qed.

Lemma py_int_monotone (r s : R) : r <= s -> (py_int r <= py_int s)%Z.
Proof.
  intros Hrs. unfold py_int.
  destruct (Rle_dec 0 r), (Rle_dec 0 s); try lra.
  - now apply Zfloor_le.
  - pose proof (Zceil_bound r) as [Hlo _].
    pose proof (Zfloor_lub 0 s ltac:(assumption)) as Hs.
    assert (IZR (Zceil r) < IZR 1) as Hlt by lra. apply lt_IZR in Hlt. lia.
  - now apply Zceil_le.
Qed.



(** X18: On return, both frequency axes have been given the same limits, the
    least and the greatest of the x values, so no data point lies outside
    them. *)
Theorem plot_fit_xlim_covers_data (x y w : list R) (fit_result : positive)
    (σ : world) (r : positive) (σ' : world) :
  plot_fit x y w fit_result σ = Return r σ' ->
  exists fmin fmax : R,
    Plt.set_xlim Plt.Ax fmin fmax ∈ canvas σ' /\
    Plt.set_xlim Plt.Ax3 fmin fmax ∈ canvas σ' /\
    fmin ∈ x /\ fmax ∈ x /\
    forall xi, xi ∈ x -> fmin <= xi <= fmax.
Proof.
  intros H. apply plot_fit_inversion in H
    as (res & top & fmin & fmax & scaled & drawn & _ & _ & _ & Hc & _ & _ & _
        & Hmin & Hmax & _ & _ & _ & _ & Hl1 & Hl3 & _).
  apply np_min_spec in Hmin as [Hmin_in Hmin]. apply np_max_spec in Hmax as [Hmax_in Hmax].
  exists fmin, fmax. rewrite Hc, !elem_of_app. repeat split; auto.
Qed.

Lemma plot_fit_xlim_covers_data_witness :
  exists (σ' : world) (fmin fmax : R),
    plot_fit [1; 2] [5; 6] [2; 4] 1%positive (one_result sample_result)
      = Return 1%positive σ' /\
    Plt.set_xlim Plt.Ax fmin fmax ∈ canvas σ' /\
    Plt.set_xlim Plt.Ax3 fmin fmax ∈ canvas σ' /\
    fmin ∈ [1; 2] /\ fmax ∈ [1; 2] /\
    forall xi, xi ∈ [1; 2] -> fmin <= xi <= fmax.
Proof.
  destruct (plot_fit_runs [1; 2] [5; 6] [2; 4] 1%positive (one_result sample_result)
              sample_result eq_refl sample_well_formed)
    as (top & drawn & _ & Hrun & _).
  destruct (plot_fit_xlim_covers_data _ _ _ _ _ _ _ Hrun) as (fmin & fmax & H).
  eexists. exists fmin, fmax. split; [exact Hrun | exact H].
Defined.

(** X19: [rangeMax] exists exactly for a non-empty residual array; it lies
    strictly above every residual, and is at least 1 as soon as one
    residual is not negative. *)
Theorem rangeMax_above_residuals (residual : list R) :
  (rangeMax residual = None <-> residual = []) /\
  forall rmax, rangeMax residual = Some rmax ->
    (forall r, r ∈ residual -> r < IZR rmax) /\
    ((exists r, r ∈ residual /\ 0 <= r) -> (1 <= rmax)%Z).
Proof.
  split.
  - destruct residual; cbn; split; congruence.
  - intros rmax Hrange. unfold rangeMax in Hrange.
    destruct (Np.max residual) as [top |] eqn:Hmax; [| discriminate].
    injection Hrange as <-. apply np_max_spec in Hmax as [_ Hall].
    pose proof (py_int_above top). split.
    + intros r Hr. specialize (Hall r Hr). lra.
    + intros (r & Hr & Hpos). specialize (Hall r Hr).
      pose proof (py_int_monotone 0 top ltac:(lra)) as Hmono.
      assert (py_int 0 = 0%Z) as H0.
      { unfold py_int. destruct (Rle_dec 0 0); [apply ZfloorZ | lra]. }
      lia.
Qed.

Lemma rangeMax_above_residuals_witness :
  (rangeMax [0; -0.25] = None <-> [0; -0.25] = []) /\
  forall rmax, rangeMax [0; -0.25] = Some rmax ->
    (forall r, r ∈ [0; -0.25] -> r < IZR rmax) /\
    ((exists r, r ∈ [0; -0.25] /\ 0 <= r) -> (1 <= rmax)%Z).
Proof. exact (rangeMax_above_residuals [0; -0.25]). Defined.

(** X20: More residuals never narrow the histogram range. *)
Theorem rangeMax_grows_with_data (residual more : list R) (rmax : Z) :
  rangeMax residual = Some rmax ->
  exists rmax', rangeMax (residual ++ more) = Some rmax' /\ (rmax <= rmax')%Z.
Proof.
  unfold rangeMax. intros Hrange.
  destruct (Np.max residual) as [top |] eqn:Hmax; [| discriminate].
  injection Hrange as <-.
  destruct (np_max_defined (residual ++ more)) as [top' Hmax'].
  { destruct residual; [discriminate | discriminate]. }
  rewrite Hmax'. exists (py_int top' + 1)%Z. split; [reflexivity |].
  apply np_max_spec in Hmax as [Hin _]. apply np_max_spec in Hmax' as [_ Hall].
  assert (top <= top') as Hle by (apply Hall, elem_of_app; now left).
  pose proof (py_int_monotone top top' Hle). lia.
Qed.

Lemma rangeMax_grows_with_data_witness :
  exists rmax', rangeMax ([2] ++ [5; -1]) = Some rmax' /\ (py_int 2 + 1 <= rmax')%Z.
Proof. apply (rangeMax_grows_with_data [2] [5; -1]). reflexivity. Defined.

Lemma np_mul_length (a b c : list R) :
  Np.mul a b = Some c -> length c = length b ->
  length a = length b \/ length a = 1%nat.
Proof.
  unfold Np.mul. destruct (decide (length a = length b)) as [Heq | Hne]; [auto |].
  destruct a as [| k [| k' a]]; [| auto |].
  - destruct b as [| kb [| ? ?]]; try discriminate. intros [= <-] Hc. discriminate.
  - destruct b as [| kb [| ? ?]]; try discriminate. intros [= <-] Hc.
    cbn in Hc. rewrite ?length_map in Hc. left. cbn. lia.
Qed.

(** X21: [plot_fit] returns only if x is not empty; y, w and the best-fit
    curve have the length of x; the residual array has that length or a
    single element; and the greatest residual is above -2.  On every
    other input it raises. *)
Theorem plot_fit_returns_only_if (x y w : list R) (fit_result : positive)
    (σ : world) (r : positive) (σ' : world) :
  plot_fit x y w fit_result σ = Return r σ' ->
  exists res : Lmfit.ModelResult,
    heap σ !! fit_result = Some res /\
    x <> [] /\ length y = length x /\ length w = length x /\
    length (Lmfit.best_fit res) = length x /\
    (length (Lmfit.residual res) = length x \/ length (Lmfit.residual res) = 1%nat) /\
    exists top : R, Np.max (Lmfit.residual res) = Some top /\ -2 < top.
Proof.
  intros Hrun. apply plot_fit_inversion in Hrun
    as (res & top & fmin & fmax & scaled & drawn & Hres & _ & _ & _ & Ly & Lb & Lw
        & Hmin & _ & Hmax & Htop & Hmul & Ls & _).
  exists res. split; [exact Hres |].
  split; [intros ->; discriminate |].
  repeat split; auto.
  - rewrite Lw. apply (np_mul_length _ _ _ Hmul). congruence.
  - eauto.
Qed.

Lemma plot_fit_returns_only_if_witness :
  exists (σ' : world) (res : Lmfit.ModelResult),
    plot_fit [1; 2] [5; 6] [2; 4] 1%positive (one_result sample_result)
      = Return 1%positive σ' /\
    heap (one_result sample_result) !! 1%positive = Some res /\
    [1; 2] <> [] /\ length [5; 6] = length [1; 2] /\ length [2; 4] = length [1; 2] /\
    length (Lmfit.best_fit res) = length [1; 2] /\
    (length (Lmfit.residual res) = length [1; 2] \/ length (Lmfit.residual res) = 1%nat) /\
    exists top : R, Np.max (Lmfit.residual res) = Some top /\ -2 < top.
Proof.
  destruct (plot_fit_runs [1; 2] [5; 6] [2; 4] 1%positive (one_result sample_result)
              sample_result eq_refl sample_well_formed)
    as (top & drawn & _ & Hrun & _).
  destruct (plot_fit_returns_only_if _ _ _ _ _ _ _ Hrun) as (res & H).
  eexists. exists res. split; [exact Hrun | exact H].
Defined.

(** X22: The last figure shows the residuals back in power units against the
    curves +w and -w: a point with positive uncertainty lies within that
    band exactly when its normalized residual is within -1 and 1. *)
Theorem plot_fit_error_band (x y w : list R) (fit_result : positive) (σ : world)
    (res : Lmfit.ModelResult) (r : positive) (σ' : world) :
  plot_fit x y w fit_result σ = Return r σ' ->
  heap σ !! fit_result = Some res ->
  length (Lmfit.residual res) = length w ->
  let scaled := zip_with Rmult (Lmfit.residual res) w in
  Plt.scatter Plt.Ax3 x scaled "residuals" ∈ canvas σ' /\
  Plt.plot Plt.Ax3 x (Some <$> w) "" "" "+$\sigma$" ∈ canvas σ' /\
  Plt.plot Plt.Ax3 x (Some <$> map Ropp w) "" "" "-$\sigma$" ∈ canvas σ' /\
  forall (i : nat) (ri wi : R),
    Lmfit.residual res !! i = Some ri -> w !! i = Some wi -> 0 < wi ->
    scaled !! i = Some (ri * wi) /\
    (- wi <= ri * wi <= wi <-> -1 <= ri <= 1).
Proof.
  intros Hrun Hheap Hlen scaled.
  apply plot_fit_inversion in Hrun
    as (res' & top & fmin & fmax & scaled' & drawn & Hres' & _ & _ & Hc & _ & _ & _
        & _ & _ & _ & _ & Hmul & _ & _ & _ & Hsc & Hup & Hdown).
  rewrite Hheap in Hres'. injection Hres' as <-.
  rewrite (np_mul_same_length _ _ Hlen) in Hmul. injection Hmul as <-.
  rewrite Hc, !elem_of_app.
  split; [auto |]. split; [auto |]. split; [auto |].
  intros i ri wi Hri Hwi Hpos. split.
  - unfold scaled. rewrite lookup_zip_with, Hri, Hwi. reflexivity.
  - split; intros [Hlo Hhi]; split; nra.
Qed.

Lemma plot_fit_error_band_witness :
  exists σ' : world,
    plot_fit [1; 2] [5; 6] [2; 4] 1%positive (one_result sample_result)
      = Return 1%positive σ' /\
    Plt.scatter Plt.Ax3 [1; 2] (zip_with Rmult [0; -0.25] [2; 4]) "residuals"
      ∈ canvas σ' /\
    Plt.plot Plt.Ax3 [1; 2] (Some <$> [2; 4]) "" "" "+$\sigma$" ∈ canvas σ' /\
    Plt.plot Plt.Ax3 [1; 2] (Some <$> map Ropp [2; 4]) "" "" "-$\sigma$" ∈ canvas σ' /\
    forall (i : nat) (ri wi : R),
      [0; -0.25] !! i = Some ri -> [2; 4] !! i = Some wi -> 0 < wi ->
      zip_with Rmult [0; -0.25] [2; 4] !! i = Some (ri * wi) /\
      (- wi <= ri * wi <= wi <-> -1 <= ri <= 1).
Proof.
  destruct (plot_fit_runs [1; 2] [5; 6] [2; 4] 1%positive (one_result sample_result)
              sample_result eq_refl sample_well_formed)
    as (top & drawn & _ & Hrun & _).
  eexists. split; [exact Hrun |].
  exact (plot_fit_error_band [1; 2] [5; 6] [2; 4] 1%positive
           (one_result sample_result) sample_result _ _ Hrun eq_refl eq_refl).
Defined.
